(** * oy3o/conf: the tag-priority key resolver, the environment-strict
      auditor and the validation dispatcher

    A shallow embedding of [env_strict.go] (package [conf]) and of the
    validator package, together with the properties their specification
    states about them.

    Conventions of the embedding:
    - a Go [string] is a [string] of bytes.  [strings.ToUpper] and
      [strings.ToLower] are embedded on their ASCII path (the one Go takes
      when every byte is below [utf8.RuneSelf]); bytes outside ASCII are left
      as they are, so the embedding coincides with Go on ASCII input, which is
      what environment-variable names and struct tags are made of;
    - a [reflect.StructTag] is the sequence of its [key:"value"] pairs, in
      the order they are written; [Get] returns the first pair with the key;
    - the process environment is a finite map from names to values, handed
      to every function that reads it;
    - a Go [error] result is an [option]: [None] is [nil]. *)

From stdpp Require Import base option list strings gmap.
From Stdlib Require Import Ascii String.

Set Warnings "-register-all".

Local Open Scope string_scope.
Local Open Scope list_scope.

(** ** Package [strings] *)

Module strings.

(** The ASCII branch of [strings.ToUpper]: ['a'..'z'] loses 32. *)
Definition upperByte (c : ascii) : ascii :=
  let n := nat_of_ascii c in
  if (97 <=? n)%nat && (n <=? 122)%nat then ascii_of_nat (n - 32) else c.

(** The ASCII branch of [strings.ToLower]: ['A'..'Z'] gains 32. *)
Definition lowerByte (c : ascii) : ascii :=
  let n := nat_of_ascii c in
  if (65 <=? n)%nat && (n <=? 90)%nat then ascii_of_nat (n + 32) else c.

Fixpoint ToUpper (s : string) : string :=
  match s with
  | EmptyString => EmptyString
  | String c r => String (upperByte c) (ToUpper r)
  end.

Fixpoint ToLower (s : string) : string :=
  match s with
  | EmptyString => EmptyString
  | String c r => String (lowerByte c) (ToLower r)
  end.

(** [strings.Cut s sep] for a one-byte separator: the text before the
    first [sep], and the text after it when there is one. *)
Fixpoint Cut (sep : ascii) (s : string) : string * option string :=
  match s with
  | EmptyString => (EmptyString, None)
  | String c r =>
      if Ascii.eqb c sep then (EmptyString, Some r)
      else let '(before, after) := Cut sep r in (String c before, after)
  end.

(** [strings.SplitN s sep 2] for a one-byte separator: at most two
    pieces, the second one unsplit. *)
Definition SplitN2 (s : string) (sep : ascii) : list string :=
  match Cut sep s with
  | (before, None) => [before]
  | (before, Some after) => [before; after]
  end.

End strings.

(** ** Package [os] *)

Module os.

(** [os.Getenv]: the value of the variable, empty when it is not set. *)
Definition Getenv (env : gmap string string) (name : string) : string :=
  default "" (env !! name).

End os.

(** ** Package [reflect] *)

Module reflect.

(** [StructTag.Lookup]: the value of the first pair whose key is [key]. *)
Fixpoint Lookup (tag : list (string * string)) (key : string) : option string :=
  match tag with
  | [] => None
  | (k, v) :: rest => if decide (k = key) then Some v else Lookup rest key
  end.

(** [StructTag.Get]: as [Lookup], the empty string when the key is absent. *)
Definition Get (tag : list (string * string)) (key : string) : string :=
  default "" (Lookup tag key).

Record StructField : Type := mkField {
  Name : string;
  PkgPath : string;
  Tag : list (string * string)
}.

(** [StructField.IsExported]: the package path is empty. *)
Definition IsExported (f : StructField) : bool :=
  bool_decide (PkgPath f = "").

Inductive Kind : Type :=
| Bool | Int | String_ | Ptr | Struct.

#[global] Instance Kind_eq_dec : EqDecision Kind.
Proof. solve_decision. Defined.

(** The types a configuration schema is built from. *)
Inductive Type_ : Type :=
| TBool
| TInt
| TString
| TPtr (elem : Type_)
| TStruct (fields : list (StructField * Type_)).

(** [Type.Kind]. *)
Definition TKind (t : Type_) : Kind :=
  match t with
  | TBool => Bool
  | TInt => Int
  | TString => String_
  | TPtr _ => Ptr
  | TStruct _ => Struct
  end.

(** A valid [reflect.Value].  A nil pointer keeps its static element
    type; a struct value lists its fields in declaration order, each with
    the [StructField] that [Type().Field(i)] returns for it. *)
Inductive Value : Type :=
| VBool (b : bool)
| VInt (n : Z)
| VString (s : string)
| VNil (elem : Type_)
| VPtr (target : Value)
| VStruct (fields : list (StructField * Value)).

(** [Value.Type]. *)
Fixpoint TypeOf (v : Value) : Type_ :=
  match v with
  | VBool _ => TBool
  | VInt _ => TInt
  | VString _ => TString
  | VNil elem => TPtr elem
  | VPtr target => TPtr (TypeOf target)
  | VStruct fields => TStruct (map (fun fv => (fst fv, TypeOf (snd fv))) fields)
  end.

End reflect.

Import reflect.

(** ** [env_strict.go] *)

(** One of the four blocks of [resolveKeyName]: the tag of [family], cut at
    its first comma.  [Some r] is the block's [return r]; [None] is falling
    out of the block (tag absent or empty, or an empty name before the
    options). *)
Definition tagBlock (field : StructField) (family : string) : option string :=
  let tag := Get (Tag field) family in
  if decide (tag = "") then None
  else
    let name := nth 0 (strings.SplitN2 tag ",") "" in
    if decide (name = "-") then Some ""
    else if decide (name = "") then None
    else Some name.

(** [resolveKeyName]: mapstructure > yaml > json > toml > field name. *)
Definition resolveKeyName (field : StructField) : string :=
  match tagBlock field "mapstructure" with
  | Some r => r
  | None =>
  match tagBlock field "yaml" with
  | Some r => r
  | None =>
  match tagBlock field "json" with
  | Some r => r
  | None =>
  match tagBlock field "toml" with
  | Some r => r
  | None => Name field
  end end end end.

(** The key of one tree level, lines 112-118 of [recursiveEnvCheck]: the
    prefix, an underscore and the resolved name, upper-cased; the name alone
    when the prefix is empty. *)
Definition composeKey (prefix mapKey : string) : string :=
  if decide (prefix ≠ "") then strings.ToUpper (prefix +:+ "_" +:+ mapKey)
  else strings.ToUpper mapKey.

(** The text of the error of line 138:
    [fmt.Errorf("security check failed: field '%s' (tag: '%s') must be set
    via environment variable '%s' in production", field.Name, mapKey,
    currentKey)]. *)
Definition violation (fieldName mapKey currentKey : string) : string :=
  "security check failed: field '" +:+ fieldName +:+ "' (tag: '" +:+ mapKey
  +:+ "') must be set via environment variable '" +:+ currentKey
  +:+ "' in production".

(** Lines 121-124: the static type of a field, through one pointer. *)
Definition derefType (t : Type_) : Type_ :=
  match t with
  | TPtr elem => elem
  | _ => t
  end.

(** The [for] loop of [recursiveEnvCheck] over the fields of a struct value,
    in declaration order.  [recurse] is the recursive call of line 128. *)
Definition envCheckFields (env : gmap string string)
    (recurse : string → Value → option string) (prefix : string) :
    list (StructField * Value) → option string :=
  fix loop (fields : list (StructField * Value)) : option string :=
    match fields with
    | [] => None
    | (field, fieldVal) :: rest =>
        if negb (IsExported field) then loop rest
        else
          let mapKey := resolveKeyName field in
          if decide (mapKey = "") then loop rest
          else
            let currentKey := composeKey prefix mapKey in
            if decide (TKind (derefType (TypeOf fieldVal)) = Struct) then
              match recurse currentKey fieldVal with
              | Some err => Some err
              | None => loop rest
              end
            else if decide (Get (Tag field) "env" = "strict") then
              if decide (os.Getenv env currentKey = "") then
                Some (violation (Name field) mapKey currentKey)
              else loop rest
            else loop rest
    end.

(** [recursiveEnvCheck]: one pointer level is removed (a nil pointer ends
    the walk), anything but a struct ends the walk, a struct is walked field
    by field. *)
Fixpoint recursiveEnvCheck (env : gmap string string) (prefix : string)
    (val : Value) {struct val} : option string :=
  match val with
  | VNil _ => None
  | VPtr (VStruct fields) =>
      envCheckFields env (recursiveEnvCheck env) prefix fields
  | VPtr _ => None
  | VStruct fields =>
      envCheckFields env (recursiveEnvCheck env) prefix fields
  | _ => None
  end.

(** The deployment signal of lines 12-15 of [checkEnvStrict]: [GO_ENV],
    and [APP_ENV] when that is empty. *)
Definition deploymentSignal (env : gmap string string) : string :=
  let e := os.Getenv env "GO_ENV" in
  if decide (e = "") then os.Getenv env "APP_ENV" else e.

(** Line 16: the signal in lower case. *)
Definition deploymentMode (env : gmap string string) : string :=
  strings.ToLower (deploymentSignal env).

(** [checkEnvStrict].  [cfg] is the [interface{}] argument: [None] is the
    nil interface, whose [reflect.ValueOf] is the zero [Value] (kind
    [Invalid]); so is the [Elem] of a nil pointer.  On the zero [Value]
    [recursiveEnvCheck] returns [nil] at its kind test. *)
Definition checkEnvStrict (env : gmap string string) (appName : string)
    (cfg : option Value) : option string :=
  let mode := deploymentMode env in
  if decide (mode ≠ "production" ∧ mode ≠ "prod") then None
  else
    let val :=
      match cfg with
      | Some (VPtr target) => Some target
      | Some (VNil _) => None
      | other => other
      end in
    match val with
    | Some v => recursiveEnvCheck env appName v
    | None => None
    end.

(** The walk of the fields of a struct value with the recursive call tied
    to [recursiveEnvCheck]: the body of the function below its kind tests. *)
Definition auditFields (env : gmap string string) (prefix : string)
    (fields : list (StructField * Value)) : option string :=
  envCheckFields env (recursiveEnvCheck env) prefix fields.

(** ** The audit as the specification describes it

    The specification describes the audit as a query over the
    environment-mandatory leaves of the instance.  [mandatoryLeaves] lists
    them in declaration order, each with its resolved key and its
    fully-qualified variable name, without looking at the environment;
    [firstViolation] reports the first one whose variable is absent or
    empty. *)

Record Leaf : Type := mkLeaf {
  leafField : StructField;
  leafKey : string;
  leafVar : string
}.

Definition leavesOfFields (recurse : string → Value → list Leaf)
    (prefix : string) : list (StructField * Value) → list Leaf :=
  fix collect (fields : list (StructField * Value)) : list Leaf :=
    match fields with
    | [] => []
    | (field, fieldVal) :: rest =>
        let key := resolveKeyName field in
        let var := composeKey prefix key in
        if IsExported field && negb (bool_decide (key = "")) then
          match derefType (TypeOf fieldVal) with
          | TStruct _ => recurse var fieldVal ++ collect rest
          | _ =>
              if decide (Get (Tag field) "env" = "strict")
              then mkLeaf field key var :: collect rest
              else collect rest
          end
        else collect rest
    end.

Fixpoint mandatoryLeaves (prefix : string) (val : Value) {struct val} :
    list Leaf :=
  match val with
  | VStruct fields | VPtr (VStruct fields) =>
      leavesOfFields mandatoryLeaves prefix fields
  | _ => []
  end.

Definition missing (env : gmap string string) (l : Leaf) : bool :=
  bool_decide (os.Getenv env (leafVar l) = "").

Definition firstViolation (env : gmap string string) (leaves : list Leaf) :
    option string :=
  match List.find (missing env) leaves with
  | Some l => Some (violation (Name (leafField l)) (leafKey l) (leafVar l))
  | None => None
  end.


(** The four naming families, in the order [resolveKeyName] reads them. *)
Definition families : list string := ["mapstructure"; "yaml"; "json"; "toml"].

(** The candidate name of a family on a field: its tag up to the first
    comma ([strings.SplitN(tag, ",", 2)[0]]); empty when the tag is. *)
Definition candidate (field : StructField) (family : string) : string :=
  nth 0 (strings.SplitN2 (Get (Tag field) family) ",") "".

(** What a field resolves to when [family] is the first one to match. *)
Definition outcome (field : StructField) (family : string) : string :=
  if decide (candidate field family = "-") then "" else candidate field family.

(** The keys of the levels below a prefix, each behind its underscore. *)
Definition joinKeys (keys : list string) : string :=
  foldr (λ key acc, "_" +:+ key +:+ acc) "" keys.


(** ** Induction on values *)

(** Induction over values that reaches the fields of a struct. *)
Section ValueInduction.

Variable P : Value → Prop.
Hypothesis Hbool : ∀ b, P (VBool b).
Hypothesis Hint : ∀ n, P (VInt n).
Hypothesis Hstring : ∀ s, P (VString s).
Hypothesis Hnil : ∀ elem, P (VNil elem).
Hypothesis Hptr : ∀ target, P target → P (VPtr target).
Hypothesis Hstruct :
  ∀ fields, Forall (λ fv, P (snd fv)) fields → P (VStruct fields).

Fixpoint Value_fields_ind (v : Value) : P v :=
  match v with
  | VBool b => Hbool b
  | VInt n => Hint n
  | VString s => Hstring s
  | VNil elem => Hnil elem
  | VPtr target => Hptr target (Value_fields_ind target)
  | VStruct fields =>
      Hstruct fields
        ((fix each (l : list (StructField * Value)) :
            Forall (λ fv, P (snd fv)) l :=
            match l with
            | [] => @List.Forall_nil _ (λ fv, P (snd fv))
            | fv :: rest =>
                @List.Forall_cons _ (λ fv, P (snd fv)) fv rest
                  (match fv return P (snd fv) with
                   | (_, x) => Value_fields_ind x
                   end)
                  (each rest)
            end) fields)
  end.

End ValueInduction.

(** ** The configuration types of the repository's tests *)

Module Fixtures.

Definition field (name : string) (tag : list (string * string)) : StructField :=
  mkField name "" tag.

(** [StrictSub { ApiKey string `mapstructure:"api_key" env:"strict"` }] *)
Definition ApiKey : StructField :=
  field "ApiKey" [("mapstructure", "api_key"); ("env", "strict")].

(** [StrictConfig]: [Password] has tag options, [Sub] is a pointer. *)
Definition Password : StructField :=
  field "Password" [("mapstructure", "password,omitempty"); ("env", "strict")].
Definition Sub : StructField := field "Sub" [("mapstructure", "sub")].

Definition StrictSubType : Type_ := TStruct [(ApiKey, TString)].

Definition StrictConfig (password : string) (sub : Value) : Value :=
  VStruct [(Password, VString password); (Sub, sub)].

(** [MultiTagConfig]: one family each, and three families at once. *)
Definition Host : StructField :=
  field "Host" [("json", "db_host"); ("env", "strict")].
Definition Port : StructField :=
  field "Port" [("yaml", "db_port"); ("validate", "min=1024")].
Definition User : StructField :=
  field "User" [("mapstructure", "db_user"); ("json", "user"); ("yaml", "u");
                ("env", "strict")].

(** Fields outside the tests: options without a name, the sentinel with
    other families beside it, and no tag at all. *)
Definition OptionsOnly : StructField :=
  field "Timeout" [("mapstructure", ",omitempty"); ("yaml", "timeout")].
Definition Dashed : StructField :=
  field "Secret" [("mapstructure", "-"); ("yaml", "secret"); ("json", "s");
                  ("env", "strict")].
Definition Bare : StructField := field "Verbose" [].

Definition production : gmap string string := {[ "GO_ENV" := "production" ]}.

End Fixtures.

(** ** Package [validator] *)

Module validator.

(** The errors [Validate] returns: a plain message (what [fmt.Errorf]
    builds and what an instance's own method may return), and the
    package's [*ValidationError] with its map from field path to
    message. *)
Inductive error : Type :=
| errorString (msg : string)
| ValidationError (Errors : gmap string string).

(** [SelfValidatable]: the one method [Validate() error], as a function of
    its receiver. *)
Definition SelfValidatable : Type := Value → option error.

(** What [Validate] is handed as [i interface{}]: the dynamic value, and
    the [Validate] method of its dynamic type when the method set has one.
    [i.(SelfValidatable)] succeeds exactly when it has. *)
Record Instance : Type := mkInstance {
  dyn : Value;
  validateMethod : option SelfValidatable
}.

(** One [validator.FieldError] of the rule evaluator, as far as
    [Validate] reads it; [Translate] maps a translator's locale to the
    translated message. *)
Record FieldError : Type := mkFieldError {
  Namespace : string;
  FTag : string;
  Param : string;
  Translate : string → string
}.

(** The non-nil results of the evaluator's [Struct]. *)
Inductive StructError : Type :=
| InvalidValidationError (msg : string)
| ValidationErrors (errs : list FieldError).

(** The declarative rule evaluator (go-playground/validator), an external
    collaborator: [Struct] evaluates the rule annotations of a value,
    naming fields with the registered function;
    [RegisterDefaultTranslations] installs the messages of a locale and
    may fail. *)
Record Engine : Type := mkEngine {
  Struct : (StructField → string) → Value → option StructError;
  RegisterDefaultTranslations : string → option error
}.

Record Validator : Type := mkValidator {
  engine : Engine;
  tagName : StructField → string;
  trans : option string
}.

Definition nonEmpty (s : string) : bool := negb (s =? "").

(** [strings.SplitN(tag, ",", 2)[0]]. *)
Definition nameOf (tag : string) : string :=
  nth 0 (strings.SplitN2 tag ",") "".

(** The function literal that [New] passes to [RegisterTagNameFunc]
    (lines 33-79): the four blocks in their order, each guarded by its
    tag being non-empty, then the field name. *)
Definition tagNameFunc (fld : StructField) : string :=
  let mapstructure := Get (Tag fld) "mapstructure" in
  let yaml := Get (Tag fld) "yaml" in
  let json := Get (Tag fld) "json" in
  let toml := Get (Tag fld) "toml" in
  (* Priority 1: mapstructure *)
  if nonEmpty mapstructure && (nameOf mapstructure =? "-") then ""
  else if nonEmpty mapstructure && nonEmpty (nameOf mapstructure)
  then nameOf mapstructure
  (* Priority 2: yaml *)
  else if nonEmpty yaml && (nameOf yaml =? "-") then ""
  else if nonEmpty yaml && nonEmpty (nameOf yaml) then nameOf yaml
  (* Priority 3: json *)
  else if nonEmpty json && (nameOf json =? "-") then ""
  else if nonEmpty json && nonEmpty (nameOf json) then nameOf json
  (* Priority 4: toml *)
  else if nonEmpty toml && (nameOf toml =? "-") then ""
  else if nonEmpty toml && nonEmpty (nameOf toml) then nameOf toml
  else Name fld.

(** [New(locale ...string)]: the evaluator with the naming function
    registered; no translator without a locale, else the translator of
    ["zh"], or of ["en"] for every other language, after its default
    translations are registered. *)
Definition New (e : Engine) (locale : list string) : Validator + error :=
  let v := tagNameFunc in
  match locale with
  | [] => inl (mkValidator e v None)
  | lang :: _ =>
      if lang =? "" then inl (mkValidator e v None)
      else
        let trans := if lang =? "zh" then "zh" else "en" in
        match RegisterDefaultTranslations e trans with
        | Some err => inr err
        | None => inl (mkValidator e v (Some trans))
        end
  end.

(** Lines 143-146: the namespace without the struct prefix, that is
    without everything up to its first dot. *)
Definition stripStruct (namespace : string) : string :=
  match strings.Cut "." namespace with
  | (_, Some after) => after
  | (_, None) => namespace
  end.

(** Lines 148-156: the message of one violation. *)
Definition message (trans : option string) (e : FieldError) : string :=
  match trans with
  | Some t => Translate e t
  | None => if nonEmpty (Param e) then FTag e +:+ "=" +:+ Param e else FTag e
  end.

(** Lines 141-157: the map from field path to message; a later violation
    of the same path replaces an earlier one. *)
Definition translatedErrors (trans : option string) (errs : list FieldError) :
    gmap string string :=
  foldl (λ m e, <[stripStruct (Namespace e) := message trans e]> m) ∅ errs.

(** The calls [Validate] makes to its collaborators. *)
Inductive Call : Type :=
| SelfValidate (receiver : Value)
| StructRules (subject : Value).

(** [Validator.Validate]: its result, and the calls it made on the way. *)
Definition Validate (v : Validator) (i : Instance) : list Call * option error :=
  match validateMethod i with
  | Some method => ([SelfValidate (dyn i)], method (dyn i))
  | None =>
      let calls := [StructRules (dyn i)] in
      match Struct (engine v) (tagName v) (dyn i) with
      | None => (calls, None)
      | Some (InvalidValidationError msg) =>
          (calls, Some (errorString ("invalid validation error: " +:+ msg)))
      | Some (ValidationErrors errs) =>
          (calls, Some (ValidationError (translatedErrors (trans v) errs)))
      end
  end.

(** [FastConfig] of the tests and its [Validate] method. *)
Definition FastConfig (apiKey : string) : Value :=
  VPtr (VStruct [(Fixtures.field "APIKey" [("mapstructure", "api_key")],
                  VString apiKey)]).

Definition FastConfig_Validate (f : Value) : option error :=
  match f with
  | VPtr (VStruct [(_, VString apiKey)]) =>
      if (String.length apiKey =? 32)%nat then None
      else Some (errorString "api_key must be 32 chars")
  | _ => None
  end.

(** An evaluator that finds a violation in whatever it is given. *)
Definition rejecting : Engine :=
  mkEngine
    (λ name _, Some (ValidationErrors
       [mkFieldError "FastConfig.api_key" "required" "" (λ _, "required")]))
    (λ _, None).

(** [strings.Join]. *)
Definition Join (elems : list string) (sep : string) : string :=
  match elems with
  | [] => ""
  | first :: others => first +:+ foldr (λ e acc, sep +:+ e +:+ acc) "" others
  end.

Definition newline : string := String (ascii_of_nat 10) "".

(** The text [ValidationError.Error] builds (lines 115-121) when its
    [range] over the map visits the entries in the order [entries]. *)
Definition ErrorText (entries : list (string * string)) : string :=
  let msgs := map (λ fm, fst fm +:+ ": " +:+ snd fm) entries in
  "validation failed:" +:+ newline +:+ " - "
  +:+ Join msgs (newline +:+ " - ").

(** [ValidationError.Error]: Go leaves the order of a [range] over a map
    open, so the method is a relation between the map and its texts, one
    text per order of the entries. *)
Definition Error_returns (Errors : gmap string string) (text : string) : Prop :=
  ∃ entries, entries ≡ₚ map_to_list Errors ∧ text = ErrorText entries.

(** [UserInterface] of the interface benchmark and its [Validate] method
    (lines 19-34 of validator_interface_benchmark_test.go). *)
Definition UserInterface (name : string) (age : Z) : Value :=
  VPtr (VStruct [(Fixtures.field "Name" [], VString name);
                 (Fixtures.field "Age" [], VInt age)]).

Definition UserInterface_Validate (u : Value) : option error :=
  match u with
  | VPtr (VStruct [(_, VString name); (_, VInt age)]) =>
      if (String.length name =? 0)%nat
      then Some (errorString "name is required")
      else if (age <? 18)%Z then Some (errorString "age must be >= 18")
      else None
  | _ => None
  end.

End validator.

(** ** [options.go] *)

Record options : Type := mkOptions {
  searchPaths : list string;
  fileType : string;
  fileName : string;
  locale : string
}.

(** [Option], a function on a pointer to [options]: what it does to the
    record it is handed. *)
Definition Option : Type := options → options.

Definition defaultOptions : options :=
  mkOptions ["."; "./config"] "yaml" "config" "zh".

Definition WithSearchPaths (paths : list string) : Option :=
  λ o, mkOptions paths (fileType o) (fileName o) (locale o).

Definition WithFileType (t : string) : Option :=
  λ o, mkOptions (searchPaths o) t (fileName o) (locale o).

Definition WithFileName (n : string) : Option :=
  λ o, mkOptions (searchPaths o) (fileType o) n (locale o).

Definition WithLocale (l : string) : Option :=
  λ o, mkOptions (searchPaths o) (fileType o) (fileName o) l.

(** Lines 24-27 of [Load]: the defaults, then every option in turn. *)
Definition applyOptions (opts : list Option) : options :=
  foldl (λ o opt, opt o) defaultOptions opts.

(** ** [conf.go] *)

(** The failures of [viper.ReadInConfig] that [Load] tells apart. *)
Inductive ReadError : Type :=
| ConfigFileNotFoundError
| OtherReadError (cause : string).

(** The libraries [Load] drives, as far as it reads their results:
    [defaults.SetDefaults] on the fresh value; [viper.ReadInConfig] under
    the file name, type and search paths of the options; [viper.Unmarshal]
    into the value, under the same options, the application name as
    environment prefix and the process environment; and the rule evaluator
    behind the validator. *)
Record Libraries : Type := mkLibraries {
  SetDefaults : Value → Value;
  ReadInConfig : options → option ReadError;
  Unmarshal : options → string → gmap string string → Value → Value + string;
  rules : validator.Engine
}.

(** The type parameter [T] of [Load]: its zero value, and the [Validate]
    method of [*T] when it has one. *)
Record ConfigType : Type := mkConfigType {
  zero : Value;
  method : option validator.SelfValidatable
}.

(** The errors of [Load]: three wrapped with [%w] under their context
    ("read config file", "unmarshal config", "init validator"), two handed
    on as they are (the strict-environment audit's and the validator's). *)
Inductive LoadError : Type :=
| ReadConfigFile (cause : string)
| UnmarshalConfig (cause : string)
| StrictEnv (msg : string)
| InitValidator (cause : validator.error)
| Invalid (err : validator.error).

(** [Load[T]]: the loaded [*T] (here the value it points to), or the
    first error on the way. *)
Definition Load (lib : Libraries) (T : ConfigType) (env : gmap string string)
    (appName : string) (opts : list Option) : Value + LoadError :=
  let o := applyOptions opts in
  let cfg := SetDefaults lib (zero T) in
  match ReadInConfig lib o with
  | Some (OtherReadError cause) => inr (ReadConfigFile cause)
  | _ =>
      match Unmarshal lib o appName env cfg with
      | inr cause => inr (UnmarshalConfig cause)
      | inl cfg =>
          match checkEnvStrict env appName (Some (VPtr cfg)) with
          | Some msg => inr (StrictEnv msg)
          | None =>
              match validator.New (rules lib) [locale o] with
              | inr cause => inr (InitValidator cause)
              | inl val =>
                  match snd (validator.Validate val
                               (validator.mkInstance (VPtr cfg) (method T))) with
                  | Some err => inr (Invalid err)
                  | None => inl cfg
                  end
              end
          end
      end
  end.

(** A process without configuration file and with rules that find no
    fault, loading the [StrictConfig] of the tests. *)
Module LoadFixtures.

Definition accepting : validator.Engine :=
  validator.mkEngine (λ _ _, None) (λ _, None).

Definition noFile : Libraries :=
  mkLibraries (λ v, v) (λ _, Some ConfigFileNotFoundError)
    (λ _ _ _ v, inl v) accepting.

Definition StrictConfigType : ConfigType :=
  mkConfigType (Fixtures.StrictConfig "" (VNil Fixtures.StrictSubType)) None.

End LoadFixtures.

(** ** Notions the further properties are stated with *)

(** Whether a byte occurs in a string. *)
Fixpoint hasByte (c : ascii) (s : string) : bool :=
  match s with
  | EmptyString => false
  | String x r => Ascii.eqb x c || hasByte c r
  end.

(** A value with every scalar replaced by the zero of its type: what is
    left is the shape (types, tags, which pointers are nil). *)
Fixpoint blank (v : Value) : Value :=
  match v with
  | VBool _ => VBool false
  | VInt _ => VInt 0
  | VString _ => VString ""
  | VNil elem => VNil elem
  | VPtr target => VPtr (blank target)
  | VStruct fields => VStruct (map (λ fv, (fst fv, blank (snd fv))) fields)
  end.

(** An option that leaves one component of the record as it found it. *)
Definition keeps {A : Type} (component : options → A) (opt : Option) : Prop :=
  ∀ o, component (opt o) = component o.

(** Two environments that set the same variables to non-empty values. *)
Definition sameVariablesSet (env env' : gmap string string) : Prop :=
  ∀ name, os.Getenv env name = "" ↔ os.Getenv env' name = "".

(** * Properties *)

(** ** Facts about the string functions *)

Section StringFacts.

Lemma upperByte_idem (c : ascii) :
  strings.upperByte (strings.upperByte c) = strings.upperByte c.
Proof. destruct c as [[] [] [] [] [] [] [] []]; reflexivity. Qed.

Lemma app_cons (x : ascii) (a b : string) :
  String x a +:+ b = String x (a +:+ b).
Proof. reflexivity. Qed.

Lemma app_assoc_string (a b c : string) : (a +:+ b) +:+ c = a +:+ b +:+ c.
Proof.
  induction a as [|x a IH]; [reflexivity |].
  rewrite !app_cons. by f_equal.
Qed.

Lemma app_empty_r (a : string) : a +:+ "" = a.
Proof.
  induction a as [|x a IH]; [reflexivity |]. rewrite app_cons. by f_equal.
Qed.

Lemma ToUpper_app (a b : string) :
  strings.ToUpper (a +:+ b) = strings.ToUpper a +:+ strings.ToUpper b.
Proof.
  induction a as [|x a IH]; [reflexivity |].
  rewrite app_cons. simpl. rewrite app_cons. by f_equal.
Qed.

Lemma ToUpper_idem (s : string) :
  strings.ToUpper (strings.ToUpper s) = strings.ToUpper s.
Proof.
  induction s as [|x s IH]; simpl; [reflexivity |].
  f_equal; [apply upperByte_idem | exact IH].
Qed.

Lemma ToUpper_nonempty (s : string) : s ≠ "" → strings.ToUpper s ≠ "".
Proof. destruct s; [done | discriminate]. Qed.

Lemma app_nonempty_l (a b : string) : a ≠ "" → a +:+ b ≠ "".
Proof. destruct a; [done | discriminate]. Qed.

End StringFacts.

(** ** Facts about [resolveKeyName] *)

Section ResolveFacts.

Lemma candidate_absent field family :
  Get (Tag field) family = "" → candidate field family = "".
Proof. unfold candidate. by intros ->. Qed.

Lemma Get_absent tag key : Lookup tag key = None → Get tag key = "".
Proof. unfold Get. by intros ->. Qed.

(** A block in terms of the candidate name alone. *)
Lemma tagBlock_candidate field family :
  tagBlock field family =
    if decide (candidate field family = "") then None
    else Some (outcome field family).
Proof.
  unfold tagBlock, outcome. fold (candidate field family).
  destruct (decide (Get (Tag field) family = "")) as [E|E].
  - by rewrite (candidate_absent _ _ E).
  - repeat case_decide; congruence.
Qed.

Lemma tagBlock_skip field family :
  candidate field family = "" → tagBlock field family = None.
Proof. intros E. rewrite tagBlock_candidate. by rewrite decide_True. Qed.

Lemma tagBlock_hit field family :
  candidate field family ≠ "" →
  tagBlock field family = Some (outcome field family).
Proof. intros E. rewrite tagBlock_candidate. by rewrite decide_False. Qed.

(** First match wins, in the order of [families]. *)
Lemma resolveKeyName_first_match field before family after :
  families = before ++ family :: after →
  Forall (λ g, candidate field g = "") before →
  candidate field family ≠ "" →
  resolveKeyName field = outcome field family.
Proof.
  intros Hsplit Hbefore Hhit. unfold resolveKeyName, families in *.
  destruct before as [|b0 [|b1 [|b2 [|b3 before]]]];
    simplify_eq/=; repeat match goal with
      | H : Forall _ (_ :: _) |- _ => apply Forall_cons in H as [??]
      end;
    repeat (rewrite tagBlock_skip by assumption);
    try (by rewrite tagBlock_hit by assumption).
  destruct before; discriminate.
Qed.

Lemma resolveKeyName_fallback field :
  Forall (λ g, candidate field g = "") families →
  resolveKeyName field = Name field.
Proof.
  unfold families. intros H.
  repeat match goal with
    | H : Forall _ (_ :: _) |- _ => apply Forall_cons in H as [??]
    end.
  unfold resolveKeyName. by repeat (rewrite tagBlock_skip by assumption).
Qed.

End ResolveFacts.

(** ** Facts about the walk *)

Section WalkFacts.

Variable env : gmap string string.

Lemma recursiveEnvCheck_struct prefix fields :
  recursiveEnvCheck env prefix (VStruct fields) = auditFields env prefix fields.
Proof. reflexivity. Qed.


Lemma recursiveEnvCheck_nil prefix elem :
  recursiveEnvCheck env prefix (VNil elem) = None.
Proof. reflexivity. Qed.

Lemma auditFields_nil prefix : auditFields env prefix [] = None.
Proof. reflexivity. Qed.

(** One turn of the loop. *)
Lemma auditFields_cons prefix field fieldVal rest :
  auditFields env prefix ((field, fieldVal) :: rest) =
    if negb (IsExported field) then auditFields env prefix rest
    else if decide (resolveKeyName field = "") then auditFields env prefix rest
    else if decide (TKind (derefType (TypeOf fieldVal)) = Struct) then
      match recursiveEnvCheck env
              (composeKey prefix (resolveKeyName field)) fieldVal with
      | Some err => Some err
      | None => auditFields env prefix rest
      end
    else if decide (Get (Tag field) "env" = "strict") then
      if decide (os.Getenv env
                   (composeKey prefix (resolveKeyName field)) = "")
      then Some (violation (Name field) (resolveKeyName field)
                   (composeKey prefix (resolveKeyName field)))
      else auditFields env prefix rest
    else auditFields env prefix rest.
Proof. reflexivity. Qed.

(** A field that is not exported is passed over. *)
Lemma auditFields_unexported prefix field fieldVal rest :
  IsExported field = false →
  auditFields env prefix ((field, fieldVal) :: rest)
  = auditFields env prefix rest.
Proof. intros E. rewrite auditFields_cons. by rewrite E. Qed.

(** A field that resolves to the empty name is passed over. *)
Lemma auditFields_ignored prefix field fieldVal rest :
  resolveKeyName field = "" →
  auditFields env prefix ((field, fieldVal) :: rest)
  = auditFields env prefix rest.
Proof.
  intros E. rewrite auditFields_cons.
  destruct (negb (IsExported field)); [done |]. by rewrite decide_True.
Qed.




Lemma firstViolation_app (l1 l2 : list Leaf) :
  firstViolation env (l1 ++ l2) =
    match firstViolation env l1 with
    | Some err => Some err
    | None => firstViolation env l2
    end.
Proof.
  unfold firstViolation.
  induction l1 as [|l l1 IH]; simpl; [reflexivity |].
  destruct (missing env l); [reflexivity | exact IH].
Qed.

Lemma TKind_struct_inv t : TKind t = Struct → ∃ fields, t = TStruct fields.
Proof. destruct t; try discriminate. eauto. Qed.

(** The loop agrees with the query when the recursive calls do. *)
Lemma auditFields_leaves prefix fields :
  Forall (λ fv, ∀ p, recursiveEnvCheck env p (snd fv)
                     = firstViolation env (mandatoryLeaves p (snd fv))) fields →
  auditFields env prefix fields
  = firstViolation env (leavesOfFields mandatoryLeaves prefix fields).
Proof.
  induction 1 as [|[field fieldVal] rest Hhead _ IH]; [reflexivity |].
  rewrite auditFields_cons. simpl in *.
  destruct (IsExported field); simpl; [| exact IH].
  destruct (decide (resolveKeyName field = "")) as [K|K].
  { by rewrite bool_decide_eq_true_2. }
  rewrite bool_decide_eq_false_2 by done. simpl.
  destruct (decide (TKind (derefType (TypeOf fieldVal)) = Struct)) as [S|S].
  - destruct (TKind_struct_inv _ S) as [fs ->].
    rewrite firstViolation_app, <- Hhead.
    by destruct (recursiveEnvCheck _ _ _).
  - assert (firstViolation env
              (match derefType (TypeOf fieldVal) with
               | TStruct _ =>
                   mandatoryLeaves (composeKey prefix (resolveKeyName field))
                     fieldVal ++ leavesOfFields mandatoryLeaves prefix rest
               | _ =>
                   if decide (Get (Tag field) "env" = "strict")
                   then mkLeaf field (resolveKeyName field)
                          (composeKey prefix (resolveKeyName field))
                        :: leavesOfFields mandatoryLeaves prefix rest
                   else leavesOfFields mandatoryLeaves prefix rest
               end)
            = firstViolation env
                (if decide (Get (Tag field) "env" = "strict")
                 then mkLeaf field (resolveKeyName field)
                        (composeKey prefix (resolveKeyName field))
                      :: leavesOfFields mandatoryLeaves prefix rest
                 else leavesOfFields mandatoryLeaves prefix rest)) as ->.
    { destruct (derefType (TypeOf fieldVal)); try reflexivity. by destruct S. }
    destruct (decide (Get (Tag field) "env" = "strict")); [| exact IH].
    unfold firstViolation at 1. simpl. unfold missing at 1. simpl.
    destruct (decide (os.Getenv env _ = "")) as [M|M].
    + by rewrite bool_decide_eq_true_2.
    + rewrite bool_decide_eq_false_2 by done. exact IH.
Qed.

(** The walk returns the violation of the first mandatory leaf, in
    declaration order, whose variable is absent or empty. *)
Lemma recursiveEnvCheck_leaves val :
  ∀ prefix,
    recursiveEnvCheck env prefix val
    = firstViolation env (mandatoryLeaves prefix val).
Proof.
  induction val as [| | | |target IH|fields IH] using Value_fields_ind;
    intros prefix; try reflexivity.
  - destruct target; try reflexivity. exact (IH prefix).
  - rewrite recursiveEnvCheck_struct. simpl. by apply auditFields_leaves.
Qed.

End WalkFacts.

(** ** The key resolver *)

(** C3, as the specification words it, fails: a primary-mapping annotation
    that carries options but no name ([mapstructure:",omitempty"]) does not
    decide the key; the YAML name does. *)
Lemma resolveKeyName_primary_not_always :
  ¬ (∀ field : StructField,
       is_Some (Lookup (Tag field) "mapstructure") →
       resolveKeyName field = candidate field "mapstructure").
Proof.
  intros H. specialize (H Fixtures.OptionsOnly (ltac:(by eexists))).
  vm_compute in H. discriminate H.
Qed.

(** C3, amended: a primary-mapping annotation whose name before the options
    is neither empty nor ["-"] decides the key, whatever else the field
    carries; with ["-"] the field is ignored; with an empty name the family
    counts as absent.  In general the families are read in the order
    primary-mapping, YAML, JSON, TOML: the first one with a non-empty
    candidate name decides, and the field identifier is the result when
    there is none. *)
Theorem resolveKeyName_priority (field : StructField) :
  (candidate field "mapstructure" ≠ "" →
   candidate field "mapstructure" ≠ "-" →
   resolveKeyName field = candidate field "mapstructure")
  ∧ (candidate field "mapstructure" = "-" → resolveKeyName field = "")
  ∧ (∀ before family after,
       families = before ++ family :: after →
       Forall (λ g, candidate field g = "") before →
       candidate field family ≠ "" →
       resolveKeyName field
       = if decide (candidate field family = "-") then ""
         else candidate field family)
  ∧ (Forall (λ g, candidate field g = "") families →
     resolveKeyName field = Name field).
Proof.
  split; [| split; [| split]].
  - intros Hne Hdash.
    rewrite (resolveKeyName_first_match field [] "mapstructure"
               ["yaml"; "json"; "toml"]) by (done || constructor).
    unfold outcome. by rewrite decide_False.
  - intros Hdash.
    rewrite (resolveKeyName_first_match field [] "mapstructure"
               ["yaml"; "json"; "toml"]); try (done || constructor).
    + unfold outcome. by rewrite decide_True.
    + rewrite Hdash. discriminate.
  - intros before family after Hsplit Hbefore Hhit.
    apply (resolveKeyName_first_match field before family after); assumption.
  - apply resolveKeyName_fallback.
Qed.

Lemma resolveKeyName_priority_witness :
  resolveKeyName Fixtures.User = "db_user"
  ∧ resolveKeyName Fixtures.Dashed = ""
  ∧ resolveKeyName Fixtures.Host = "db_host"
  ∧ resolveKeyName Fixtures.Bare = "Verbose".
Proof.
  split; [| split; [| split]].
  - apply (proj1 (resolveKeyName_priority Fixtures.User)); vm_compute; discriminate.
  - apply (proj1 (proj2 (resolveKeyName_priority Fixtures.Dashed))). reflexivity.
  - apply (proj1 (proj2 (proj2 (resolveKeyName_priority Fixtures.Host)))
             ["mapstructure"; "yaml"] "json" ["toml"]).
    + reflexivity.
    + repeat constructor.
    + vm_compute. discriminate.
  - apply (proj2 (proj2 (proj2 (resolveKeyName_priority Fixtures.Bare)))).
    repeat constructor.
Defined.

(** C9: a field with none of the four naming annotations resolves to its
    identifier.  Resolution is a function of the field, defined on every
    field: its result is the identifier, the empty name of an ignored
    field, or the candidate name of one of the four families. *)
Theorem resolveKeyName_total_fallback :
  (∀ field : StructField,
     Forall (λ g, Lookup (Tag field) g = None) families →
     resolveKeyName field = Name field)
  ∧ (∀ field : StructField,
       resolveKeyName field = Name field
       ∨ resolveKeyName field = ""
       ∨ ∃ family, family ∈ families
                   ∧ resolveKeyName field = candidate field family).
Proof.
  split.
  - intros field H. apply resolveKeyName_fallback.
    eapply Forall_impl; [exact H |]. simpl. intros g Hg.
    apply candidate_absent, Get_absent, Hg.
  - intros field. unfold resolveKeyName, families.
    rewrite !tagBlock_candidate. unfold outcome.
    repeat case_decide; auto;
      right; right; eexists; (split; [| reflexivity]); set_solver.
Qed.

Lemma resolveKeyName_total_fallback_witness :
  resolveKeyName Fixtures.Bare = Name Fixtures.Bare.
Proof.
  apply (proj1 resolveKeyName_total_fallback). repeat constructor.
Defined.

(** C4: when the first naming annotation present on a field, in priority
    order, has the candidate name ["-"], the field resolves to the empty
    name (ignored), whatever the later families and the identifier are; and
    the walk passes over such a field, whatever its value, its other tags
    and the environment: no recursion into it, no environment lookup. *)
Theorem ignored_field_skipped (field : StructField)
    (before : list string) (family : string) (after : list string) :
  families = before ++ family :: after →
  Forall (λ g, Get (Tag field) g = "") before →
  candidate field family = "-" →
  resolveKeyName field = ""
  ∧ ∀ env prefix fieldVal rest,
      auditFields env prefix ((field, fieldVal) :: rest)
      = auditFields env prefix rest.
Proof.
  intros Hsplit Hbefore Hdash.
  assert (resolveKeyName field = "") as Hignored.
  { rewrite (resolveKeyName_first_match field before family after Hsplit).
    - unfold outcome. by rewrite decide_True.
    - eapply Forall_impl; [exact Hbefore |]. simpl. intros g.
      apply candidate_absent.
    - rewrite Hdash. discriminate. }
  split; [exact Hignored |].
  intros env prefix fieldVal rest. by apply auditFields_ignored.
Qed.

Lemma ignored_field_skipped_witness :
  resolveKeyName Fixtures.Dashed = ""
  ∧ checkEnvStrict Fixtures.production "myapp"
      (Some (VPtr (VStruct [(Fixtures.Dashed, VString "from-file")]))) = None.
Proof.
  destruct (ignored_field_skipped Fixtures.Dashed [] "mapstructure"
              ["yaml"; "json"; "toml"] eq_refl (List.Forall_nil _) eq_refl)
    as [Hkey Hskip].
  split; [exact Hkey |].
  change (auditFields Fixtures.production "myapp"
            [(Fixtures.Dashed, VString "from-file")] = None).
  rewrite Hskip. reflexivity.
Defined.

(** ** The path composer *)


(** Composing level by level, as the walk does on its way down, gives the
    flattened upper-case path at every depth. *)
Lemma composeKey_levels (keys : list string) :
  ∀ prefix key,
    prefix ≠ "" →
    foldl composeKey (composeKey prefix key) keys
    = strings.ToUpper (prefix +:+ joinKeys (key :: keys)).
Proof.
  induction keys as [|next keys IH]; intros prefix key Hprefix.
  - simpl. unfold composeKey. rewrite decide_True by done.
    by rewrite app_empty_r.
  - simpl foldl. rewrite IH.
    + unfold composeKey. rewrite decide_True by done. simpl joinKeys.
      rewrite !ToUpper_app, !ToUpper_idem. by rewrite !app_assoc_string.
    + unfold composeKey. rewrite decide_True by done.
      by apply ToUpper_nonempty, app_nonempty_l.
Qed.


(** ** The strict auditor *)

Section AuditFacts.

Variable env : gmap string string.

Lemma firstViolation_none (leaves : list Leaf) :
  Forall (λ l, os.Getenv env (leafVar l) ≠ "") leaves →
  firstViolation env leaves = None.
Proof.
  unfold firstViolation.
  induction 1 as [|l leaves Hl _ IH]; [reflexivity |]. simpl.
  unfold missing at 1. by rewrite bool_decide_eq_false_2.
Qed.




End AuditFacts.












Section ValidatorFacts.

Import validator.

Lemma eqb_bool_decide (s t : string) : (s =? t) = bool_decide (s = t).
Proof.
  destruct (String.eqb_spec s t) as [E|E].
  - by rewrite bool_decide_eq_true_2.
  - by rewrite bool_decide_eq_false_2.
Qed.

(** One pair of guarded returns of the function literal is one block of
    [resolveKeyName]. *)
Lemma guarded_returns_block (field : StructField) (family rest : string) :
  (if nonEmpty (Get (Tag field) family)
      && (nameOf (Get (Tag field) family) =? "-") then ""
   else if nonEmpty (Get (Tag field) family)
           && nonEmpty (nameOf (Get (Tag field) family))
   then nameOf (Get (Tag field) family)
   else rest)
  = match tagBlock field family with
    | Some r => r
    | None => rest
    end.
Proof.
  unfold tagBlock, nonEmpty, nameOf. rewrite !eqb_bool_decide.
  destruct (decide (Get (Tag field) family = "")) as [E|E].
  { rewrite E. reflexivity. }
  rewrite (bool_decide_eq_false_2 _ E). simpl.
  repeat case_decide; repeat case_bool_decide; simpl; congruence.
Qed.

End ValidatorFacts.

(** C8: the naming function registered with the rule evaluator returns, on
    every field, what [resolveKeyName] returns; so does the [tagName] of
    every validator [New] builds.  In particular it reads the families in
    the same order, cuts the tag at the first comma and maps ["-"] to the
    empty name. *)
Theorem tagNameFunc_resolveKeyName :
  (∀ fld : StructField, validator.tagNameFunc fld = resolveKeyName fld)
  ∧ (∀ e locale v fld,
       validator.New e locale = inl v →
       validator.tagName v fld = resolveKeyName fld).
Proof.
  assert (∀ fld, validator.tagNameFunc fld = resolveKeyName fld) as Hsame.
  { intros fld. unfold validator.tagNameFunc, resolveKeyName. cbv zeta.
    by rewrite !guarded_returns_block. }
  split; [exact Hsame |].
  intros e locale v fld Hnew. rewrite <- Hsame.
  unfold validator.New in Hnew.
  destruct locale as [|lang rest]; [by simplify_eq |].
  destruct (lang =? ""); [by simplify_eq |].
  destruct (validator.RegisterDefaultTranslations e _); by simplify_eq.
Qed.

Lemma tagNameFunc_resolveKeyName_witness :
  validator.tagName
    (validator.mkValidator validator.rejecting validator.tagNameFunc (Some "en"))
    Fixtures.Port
  = "db_port".
Proof.
  rewrite (proj2 tagNameFunc_resolveKeyName validator.rejecting ["en"]
             (validator.mkValidator validator.rejecting validator.tagNameFunc
                (Some "en"))
             Fixtures.Port eq_refl).
  reflexivity.
Defined.

(** C7: for an instance whose type has the [Validate() error] method, the
    dispatcher calls that method on the instance and returns what it
    returns; the rule evaluator is not called, so the result is the same
    under every validator, whatever its evaluator would report. *)
Theorem Validate_selfValidatable (v : validator.Validator)
    (i : validator.Instance) (method : Value → option validator.error) :
  validator.validateMethod i = Some method →
  validator.Validate v i
  = ([validator.SelfValidate (validator.dyn i)], method (validator.dyn i))
  ∧ (∀ subject, validator.StructRules subject ∉ fst (validator.Validate v i))
  ∧ (∀ v', snd (validator.Validate v' i) = method (validator.dyn i)).
Proof.
  intros Hmethod. unfold validator.Validate. rewrite Hmethod. simpl.
  split; [reflexivity |]. split; [| reflexivity].
  intros subject Hin. apply list_elem_of_singleton in Hin. discriminate Hin.
Qed.

Lemma Validate_selfValidatable_witness :
  validator.Validate
    (validator.mkValidator validator.rejecting validator.tagNameFunc None)
    (validator.mkInstance (validator.FastConfig "too_short")
       (Some validator.FastConfig_Validate))
  = ([validator.SelfValidate (validator.FastConfig "too_short")],
     Some (validator.errorString "api_key must be 32 chars")).
Proof.
  apply (proj1 (Validate_selfValidatable
                  (validator.mkValidator validator.rejecting
                     validator.tagNameFunc None)
                  (validator.mkInstance (validator.FastConfig "too_short")
                     (Some validator.FastConfig_Validate))
                  validator.FastConfig_Validate eq_refl)).
Defined.

(** Without the method the same validator reports what its evaluator
    finds, keyed by the field path below the struct name. *)
Example Validate_rules_example :
  validator.Validate
    (validator.mkValidator validator.rejecting validator.tagNameFunc None)
    (validator.mkInstance (validator.FastConfig "too_short") None)
  = ([validator.StructRules (validator.FastConfig "too_short")],
     Some (validator.ValidationError {[ "api_key" := "required" ]})).
Proof. reflexivity. Qed.

(** * Further properties of the code *)

(** ** Cutting a tag at its first comma *)

Section CutFacts.

Variable sep : ascii.

Lemma Cut_absent (s : string) :
  hasByte sep s = false → strings.Cut sep s = (s, None).
Proof.
  induction s as [|x s IH]; [reflexivity |]. simpl.
  destruct (Ascii.eqb x sep); [discriminate |]. simpl.
  intros H. by rewrite (IH H).
Qed.

Lemma Cut_first (before after : string) :
  hasByte sep before = false →
  strings.Cut sep (before +:+ String sep after) = (before, Some after).
Proof.
  induction before as [|x before IH]; simpl.
  - intros _. change ("" +:+ String sep after) with (String sep after).
    simpl. by rewrite Ascii.eqb_refl.
  - destruct (Ascii.eqb x sep) eqn:E; [discriminate |]. simpl. intros H.
    rewrite ?app_cons. simpl. by rewrite ?E, (IH H).
Qed.

Lemma Cut_before_clean (s : string) :
  hasByte sep (fst (strings.Cut sep s)) = false.
Proof.
  induction s as [|x s IH]; [reflexivity |]. simpl.
  destruct (Ascii.eqb x sep) eqn:E; [reflexivity |].
  destruct (strings.Cut sep s) as [before after]. simpl in *.
  by rewrite E, IH.
Qed.

Lemma Cut_joins (s before after : string) :
  strings.Cut sep s = (before, Some after) →
  s = before +:+ String sep after.
Proof.
  revert before. induction s as [|x s IH]; intros before; simpl.
  - discriminate.
  - destruct (Ascii.eqb_spec x sep) as [->|E].
    + intros [= <- <-]. reflexivity.
    + destruct (strings.Cut sep s) as [b a]. intros [= <- ->].
      rewrite app_cons. f_equal. by apply IH.
Qed.

End CutFacts.

Lemma candidate_Cut (field : StructField) (family : string) :
  candidate field family = fst (strings.Cut "," (Get (Tag field) family)).
Proof.
  unfold candidate, strings.SplitN2.
  by destruct (strings.Cut "," (Get (Tag field) family)) as [before [after|]].
Qed.

(** X1: what follows the first comma of a tag never reaches the key: a tag
    [name,options] has the candidate [name], and no candidate name holds a
    comma. *)
Theorem candidate_drops_options :
  (∀ field family name opts,
     Get (Tag field) family = name +:+ "," +:+ opts →
     hasByte "," name = false →
     candidate field family = name)
  ∧ (∀ field family, hasByte "," (candidate field family) = false).
Proof.
  split.
  - intros field family name opts Htag Hclean.
    rewrite candidate_Cut, Htag.
    change (name +:+ "," +:+ opts) with (name +:+ String "," opts).
    by rewrite Cut_first.
  - intros field family. rewrite candidate_Cut. apply Cut_before_clean.
Qed.

Lemma candidate_drops_options_witness :
  candidate Fixtures.Password "mapstructure" = "password".
Proof.
  apply (proj1 candidate_drops_options Fixtures.Password "mapstructure"
           "password" "omitempty"); reflexivity.
Defined.

(** X2: for a field with an identifier, the empty result means the field
    is ignored on purpose, as the comment at the caller says: it is returned
    exactly when the first family with a candidate name has the name
    ["-"]. *)
Theorem resolveKeyName_empty_iff_ignored (field : StructField) :
  Name field ≠ "" →
  resolveKeyName field = "" ↔
  ∃ before family after,
    families = before ++ family :: after
    ∧ Forall (λ g, candidate field g = "") before
    ∧ candidate field family = "-".
Proof.
  intros Hname. split.
  - unfold resolveKeyName. rewrite !tagBlock_candidate. unfold outcome.
    destruct (decide (candidate field "mapstructure" = "")) as [E1|E1].
    2:{ case_decide; [| done]. intros _.
        exists [], "mapstructure", ["yaml"; "json"; "toml"]. by repeat constructor. }
    destruct (decide (candidate field "yaml" = "")) as [E2|E2].
    2:{ case_decide; [| done]. intros _.
        exists ["mapstructure"], "yaml", ["json"; "toml"]. by repeat constructor. }
    destruct (decide (candidate field "json" = "")) as [E3|E3].
    2:{ case_decide; [| done]. intros _.
        exists ["mapstructure"; "yaml"], "json", ["toml"]. by repeat constructor. }
    destruct (decide (candidate field "toml" = "")) as [E4|E4].
    2:{ case_decide; [| done]. intros _.
        exists ["mapstructure"; "yaml"; "json"], "toml", []. by repeat constructor. }
    done.
  - intros (before & family & after & Hsplit & Hbefore & Hdash).
    rewrite (resolveKeyName_first_match field before family after Hsplit Hbefore).
    + unfold outcome. by rewrite decide_True.
    + rewrite Hdash. discriminate.
Qed.

Lemma resolveKeyName_empty_iff_ignored_witness :
  resolveKeyName Fixtures.Dashed = "" ∧ resolveKeyName Fixtures.Bare ≠ "".
Proof.
  split.
  - apply (resolveKeyName_empty_iff_ignored Fixtures.Dashed); [discriminate |].
    exists [], "mapstructure", ["yaml"; "json"; "toml"]. by repeat constructor.
  - intros H.
    apply (resolveKeyName_empty_iff_ignored Fixtures.Bare) in H; [| discriminate].
    destruct H as (before & family & after & Hsplit & _ & Hdash).
    assert (family ∈ families) as Hin by (rewrite Hsplit; set_solver).
    unfold families in Hin.
    repeat (apply elem_of_cons in Hin as [-> | Hin]; [discriminate Hdash |]).
    by apply elem_of_nil in Hin.
Defined.

(** ** What the walk depends on *)

Section WalkDependence.

Lemma firstViolation_None_iff (env : gmap string string) (leaves : list Leaf) :
  firstViolation env leaves = None
  ↔ Forall (λ l, os.Getenv env (leafVar l) ≠ "") leaves.
Proof.
  split; [| apply firstViolation_none].
  unfold firstViolation.
  induction leaves as [|l leaves IH]; [constructor |]. simpl.
  unfold missing at 1. case_bool_decide as Hset; [discriminate |].
  intros Hrest. constructor; [exact Hset | by apply IH].
Qed.


Lemma firstViolation_same (env env' : gmap string string) (leaves : list Leaf) :
  sameVariablesSet env env' →
  firstViolation env leaves = firstViolation env' leaves.
Proof.
  intros Hsame. unfold firstViolation.
  induction leaves as [|l leaves IH]; [reflexivity |]. simpl.
  assert (missing env l = missing env' l) as ->.
  { unfold missing. apply bool_decide_ext, Hsame. }
  destruct (missing env' l); [reflexivity | exact IH].
Qed.

Lemma TypeOf_blank (v : Value) : TypeOf (blank v) = TypeOf v.
Proof.
  induction v as [| | | |target IH|fields IH] using Value_fields_ind;
    try reflexivity.
  - simpl. by rewrite IH.
  - simpl. f_equal. rewrite map_map.
    induction IH as [|[f x] rest Hx _ IHrest]; [reflexivity |].
    simpl in *. by rewrite Hx, IHrest.
Qed.

Lemma leavesOfFields_blank (prefix : string) (fields : list (StructField * Value)) :
  Forall (λ fv, ∀ p, mandatoryLeaves p (blank (snd fv))
                     = mandatoryLeaves p (snd fv)) fields →
  leavesOfFields mandatoryLeaves prefix
    (map (λ fv, (fst fv, blank (snd fv))) fields)
  = leavesOfFields mandatoryLeaves prefix fields.
Proof.
  induction 1 as [|[field fieldVal] rest Hhead _ IH]; [reflexivity |].
  simpl in *. rewrite TypeOf_blank, IH, Hhead. reflexivity.
Qed.

Lemma mandatoryLeaves_blank (v : Value) :
  ∀ prefix, mandatoryLeaves prefix (blank v) = mandatoryLeaves prefix v.
Proof.
  induction v as [| | | |target IH|fields IH] using Value_fields_ind;
    intros prefix; try reflexivity.
  - destruct target; try reflexivity. exact (IH prefix).
  - simpl. by apply leavesOfFields_blank.
Qed.

Lemma leavesOfFields_prefix (recurse : string → Value → list Leaf)
    (p p' : string) (fields : list (StructField * Value)) :
  (∀ key, composeKey p' key = composeKey p key) →
  leavesOfFields recurse p' fields = leavesOfFields recurse p fields.
Proof.
  intros Hkey. induction fields as [|[field fieldVal] rest IH]; [reflexivity |].
  simpl. by rewrite Hkey, IH.
Qed.

Lemma mandatoryLeaves_prefix (p p' : string) (v : Value) :
  (∀ key, composeKey p' key = composeKey p key) →
  mandatoryLeaves p' v = mandatoryLeaves p v.
Proof.
  intros Hkey. destruct v as [| | | |target|fields]; try reflexivity.
  - destruct target; try reflexivity. simpl. by apply leavesOfFields_prefix.
  - simpl. by apply leavesOfFields_prefix.
Qed.

Lemma upperByte_lowerByte (c : ascii) :
  strings.upperByte (strings.lowerByte c) = strings.upperByte c.
Proof. destruct c as [[] [] [] [] [] [] [] []]; reflexivity. Qed.

Lemma lowerByte_upperByte (c : ascii) :
  strings.lowerByte (strings.upperByte c) = strings.lowerByte c.
Proof. destruct c as [[] [] [] [] [] [] [] []]; reflexivity. Qed.

Lemma ToUpper_ToLower (s : string) :
  strings.ToUpper (strings.ToLower s) = strings.ToUpper s.
Proof.
  induction s as [|x s IH]; simpl; [reflexivity |].
  f_equal; [apply upperByte_lowerByte | exact IH].
Qed.

Lemma ToLower_ToUpper (s : string) :
  strings.ToLower (strings.ToUpper s) = strings.ToLower s.
Proof.
  induction s as [|x s IH]; simpl; [reflexivity |].
  f_equal; [apply lowerByte_upperByte | exact IH].
Qed.

Lemma ToUpper_empty_iff (s : string) : strings.ToUpper s = "" ↔ s = "".
Proof. destruct s; split; (done || discriminate). Qed.

Lemma ToLower_empty_iff (s : string) : strings.ToLower s = "" ↔ s = "".
Proof. destruct s; split; (done || discriminate). Qed.

Lemma composeKey_recased (p p' key key' : string) :
  strings.ToUpper p' = strings.ToUpper p →
  strings.ToUpper key' = strings.ToUpper key →
  composeKey p' key' = composeKey p key.
Proof.
  intros Hp Hkey. unfold composeKey.
  destruct (decide (p = "")) as [->|Hne].
  - apply ToUpper_empty_iff in Hp as ->.
    rewrite !decide_False by (intros H; by apply H). exact Hkey.
  - assert (p' ≠ "") as Hne'.
    { intros ->. apply Hne. apply ToUpper_empty_iff. by rewrite <- Hp. }
    rewrite (decide_True _ _ Hne), (decide_True _ _ Hne').
    rewrite !ToUpper_app. by rewrite Hp, Hkey.
Qed.

End WalkDependence.

Lemma walk_same_variables (env env' : gmap string string)
    (prefix : string) (val : Value) :
  sameVariablesSet env env' →
  recursiveEnvCheck env prefix val = recursiveEnvCheck env' prefix val.
Proof.
  intros Hsame. rewrite !recursiveEnvCheck_leaves. by apply firstViolation_same.
Qed.

(** X3: the walk reads the environment only to ask whether a variable is
    set to something: two environments that set the same variables give the
    same result, error text included. *)
Theorem recursiveEnvCheck_same_variables (env env' : gmap string string)
    (prefix : string) (val : Value) :
  sameVariablesSet env env' →
  recursiveEnvCheck env prefix val = recursiveEnvCheck env' prefix val.
Proof.
  intros Hsame. rewrite !recursiveEnvCheck_leaves.
  unfold sameVariablesSet in Hsame. by apply firstViolation_same.
Qed.

Lemma recursiveEnvCheck_same_variables_witness :
  recursiveEnvCheck {[ "MYAPP_PASSWORD" := "a" ]} "myapp"
    (Fixtures.StrictConfig "" (VNil Fixtures.StrictSubType))
  = recursiveEnvCheck {[ "MYAPP_PASSWORD" := "b" ]} "myapp"
      (Fixtures.StrictConfig "" (VNil Fixtures.StrictSubType)).
Proof.
  apply recursiveEnvCheck_same_variables. intros name.
  unfold os.Getenv. destruct (decide (name = "MYAPP_PASSWORD")) as [->|Hne].
  - rewrite !lookup_singleton_eq. simpl. split; discriminate.
  - rewrite !lookup_singleton_ne by done. reflexivity.
Defined.

(** X4: setting more variables never breaks an audit that passes: if every
    variable that is non-empty in one environment is non-empty in the other,
    a walk that passes in the first passes in the second; and for
    [checkEnvStrict], giving a non-empty value to any variable other than
    the two signal variables keeps a passing audit passing. *)
Theorem audit_monotone :
  (∀ (env env' : gmap string string) prefix val,
     (∀ name, os.Getenv env name ≠ "" → os.Getenv env' name ≠ "") →
     recursiveEnvCheck env prefix val = None →
     recursiveEnvCheck env' prefix val = None)
  ∧ (∀ (env : gmap string string) appName cfg name value,
       name ≠ "GO_ENV" → name ≠ "APP_ENV" → value ≠ "" →
       checkEnvStrict env appName cfg = None →
       checkEnvStrict (<[name := value]> env) appName cfg = None).
Proof.
  assert (∀ (env env' : gmap string string) prefix val,
            (∀ name, os.Getenv env name ≠ "" → os.Getenv env' name ≠ "") →
            recursiveEnvCheck env prefix val = None →
            recursiveEnvCheck env' prefix val = None) as Hwalk.
  { intros env env' prefix val Hmore. rewrite !recursiveEnvCheck_leaves.
    rewrite !firstViolation_None_iff. intros Hset.
    eapply Forall_impl; [exact Hset |]. intros l. apply Hmore. }
  split; [exact Hwalk |].
  intros env appName cfg name value Hgo Happ Hvalue.
  assert (deploymentMode (<[name := value]> env) = deploymentMode env) as Hmode.
  { unfold deploymentMode, deploymentSignal, os.Getenv.
    by rewrite !lookup_insert_ne. }
  unfold checkEnvStrict. rewrite Hmode.
  case_decide; [done |].
  assert (∀ k, os.Getenv env k ≠ "" →
               os.Getenv (<[name := value]> env) k ≠ "") as Hmore.
  { intros k. unfold os.Getenv.
    destruct (decide (name = k)) as [->|Hne];
      [by rewrite lookup_insert_eq | by rewrite lookup_insert_ne]. }
  destruct cfg as [[b|n|s|elem|target|fields]|]; try done; intros Hpass.
  - exact (Hwalk env _ appName target Hmore Hpass).
  - exact (Hwalk env _ appName (VStruct fields) Hmore Hpass).
Qed.

Lemma audit_monotone_witness :
  checkEnvStrict
    (<["MYAPP_EXTRA" := "x"]> (<["MYAPP_PASSWORD" := "pass"]> Fixtures.production))
    "myapp"
    (Some (VPtr (Fixtures.StrictConfig "" (VNil Fixtures.StrictSubType))))
  = None.
Proof.
  apply (proj2 audit_monotone); try discriminate. reflexivity.
Defined.

(** X5: the audit never reads a configuration value: replacing every
    scalar of the instance by the zero of its type changes nothing, so two
    instances of the same shape are audited alike.  A secret that reached
    the instance from a file does not satisfy the audit, and one that is
    absent from the instance does not fail it. *)
Theorem audit_ignores_values (env : gmap string string) :
  (∀ prefix val,
     recursiveEnvCheck env prefix (blank val) = recursiveEnvCheck env prefix val)
  ∧ (∀ appName val,
       checkEnvStrict env appName (Some (blank val))
       = checkEnvStrict env appName (Some val))
  ∧ (∀ appName val val',
       blank val = blank val' →
       checkEnvStrict env appName (Some val)
       = checkEnvStrict env appName (Some val')).
Proof.
  assert (∀ prefix val,
            recursiveEnvCheck env prefix (blank val)
            = recursiveEnvCheck env prefix val) as Hwalk.
  { intros prefix val. rewrite !recursiveEnvCheck_leaves.
    by rewrite mandatoryLeaves_blank. }
  assert (∀ appName val,
            checkEnvStrict env appName (Some (blank val))
            = checkEnvStrict env appName (Some val)) as Htop.
  { intros appName val. unfold checkEnvStrict. case_decide; [reflexivity |].
    destruct val as [| | | |target|fields]; try reflexivity.
    - apply Hwalk.
    - apply (Hwalk appName (VStruct fields)). }
  split; [exact Hwalk |]. split; [exact Htop |].
  intros appName val val' Hshape.
  by rewrite <- (Htop appName val), <- (Htop appName val'), Hshape.
Qed.

Lemma audit_ignores_values_witness :
  checkEnvStrict Fixtures.production "myapp"
    (Some (VPtr (Fixtures.StrictConfig "from-file" (VNil Fixtures.StrictSubType))))
  = checkEnvStrict Fixtures.production "myapp"
      (Some (VPtr (Fixtures.StrictConfig "" (VNil Fixtures.StrictSubType)))).
Proof.
  apply (proj2 (proj2 (audit_ignores_values Fixtures.production))).
  reflexivity.
Defined.





(** X7: the case of the application name does not matter: two names with
    the same upper-case form give the same audit, error text included. *)
Theorem appName_case_insensitive (env : gmap string string)
    (appName appName' : string) (cfg : option Value) :
  strings.ToUpper appName' = strings.ToUpper appName →
  checkEnvStrict env appName' cfg = checkEnvStrict env appName cfg.
Proof.
  intros Hcase.
  assert (∀ val, recursiveEnvCheck env appName' val
                 = recursiveEnvCheck env appName val) as Hwalk.
  { intros val. rewrite !recursiveEnvCheck_leaves. f_equal.
    apply mandatoryLeaves_prefix. intros key. by apply composeKey_recased. }
  unfold checkEnvStrict. case_decide; [reflexivity |].
  destruct cfg as [[b|n|s|elem|target|fields]|]; try reflexivity.
  - apply Hwalk.
  - apply (Hwalk (VStruct fields)).
Qed.

Lemma appName_case_insensitive_witness :
  checkEnvStrict Fixtures.production "MyApp"
    (Some (VPtr (VStruct [(Fixtures.Password, VString "")])))
  = checkEnvStrict Fixtures.production "myapp"
      (Some (VPtr (VStruct [(Fixtures.Password, VString "")]))).
Proof. apply appName_case_insensitive. reflexivity. Defined.

(** X8: the case of the deployment signal does not matter: two values of
    [GO_ENV] with the same lower-case form give the same audit. *)
Theorem GO_ENV_case_insensitive (env : gmap string string)
    (signal signal' appName : string) (cfg : option Value) :
  strings.ToLower signal' = strings.ToLower signal →
  checkEnvStrict (<["GO_ENV" := signal']> env) appName cfg
  = checkEnvStrict (<["GO_ENV" := signal]> env) appName cfg.
Proof.
  intros Hcase.
  assert (signal' = "" ↔ signal = "") as Hempty.
  { rewrite <- (ToLower_empty_iff signal'), <- (ToLower_empty_iff signal).
    by rewrite Hcase. }
  assert (deploymentMode (<["GO_ENV" := signal']> env)
          = deploymentMode (<["GO_ENV" := signal]> env)) as Hmode.
  { unfold deploymentMode, deploymentSignal, os.Getenv.
    rewrite !lookup_insert_eq, !lookup_insert_ne by done. simpl.
    destruct (decide (signal = "")) as [E|E].
    - by rewrite decide_True by (by apply Hempty).
    - rewrite decide_False by (by rewrite Hempty). exact Hcase. }
  assert (sameVariablesSet (<["GO_ENV" := signal']> env)
            (<["GO_ENV" := signal]> env)) as Hsame.
  { intros name. unfold os.Getenv.
    destruct (decide ("GO_ENV" = name)) as [<-|Hne].
    - rewrite !lookup_insert_eq. exact Hempty.
    - by rewrite !lookup_insert_ne. }
  unfold checkEnvStrict. rewrite Hmode. case_decide; [reflexivity |].
  destruct cfg as [[b|n|s|elem|target|fields]|]; try reflexivity.
  - by apply walk_same_variables.
  - by apply (walk_same_variables _ _ appName (VStruct fields)).
Qed.

Lemma GO_ENV_case_insensitive_witness :
  checkEnvStrict (<["GO_ENV" := "PRODUCTION"]> ∅) "myapp"
    (Some (VPtr (VStruct [(Fixtures.Password, VString "")])))
  = checkEnvStrict (<["GO_ENV" := "production"]> ∅) "myapp"
      (Some (VPtr (VStruct [(Fixtures.Password, VString "")]))).
Proof. apply GO_ENV_case_insensitive. reflexivity. Defined.

(** X9: instances with nothing to walk pass in every environment, also in
    production: the nil interface, a nil pointer, a scalar, a pointer to a
    scalar, a struct without fields, and anything behind three pointers.
    Behind two pointers a struct is audited like the struct itself. *)
Theorem checkEnvStrict_degenerate (env : gmap string string) (appName : string) :
  checkEnvStrict env appName None = None
  ∧ (∀ elem, checkEnvStrict env appName (Some (VNil elem)) = None)
  ∧ (∀ s, checkEnvStrict env appName (Some (VString s)) = None
          ∧ checkEnvStrict env appName (Some (VPtr (VString s))) = None)
  ∧ checkEnvStrict env appName (Some (VStruct [])) = None
  ∧ (∀ val, checkEnvStrict env appName (Some (VPtr (VPtr (VPtr val)))) = None)
  ∧ (∀ fields,
       checkEnvStrict env appName (Some (VPtr (VPtr (VStruct fields))))
       = checkEnvStrict env appName (Some (VStruct fields))).
Proof.
  unfold checkEnvStrict.
  repeat split; intros; case_decide; reflexivity.
Qed.

(** X10: what the walk never enters.  A field that is not exported is
    passed over with everything below it, whatever its tags; and behind a
    field that is a pointer to a pointer nothing is audited: the result does
    not depend on what the inner pointer leads to. *)
Theorem auditFields_never_enters (env : gmap string string) (prefix : string) :
  (∀ field fieldVal rest,
     IsExported field = false →
     auditFields env prefix ((field, fieldVal) :: rest)
     = auditFields env prefix rest)
  ∧ (∀ field inner inner' rest,
       auditFields env prefix ((field, VPtr (VPtr inner)) :: rest)
       = auditFields env prefix ((field, VPtr (VPtr inner')) :: rest)).
Proof.
  split.
  - intros field fieldVal rest. apply auditFields_unexported.
  - intros field inner inner' rest. rewrite !auditFields_cons.
    destruct (negb (IsExported field)); [reflexivity |].
    case_decide; reflexivity.
Qed.

Lemma auditFields_never_enters_witness :
  auditFields Fixtures.production "myapp"
    [(mkField "password" "conf" [("env", "strict")], VString "")]
  = None.
Proof.
  rewrite (proj1 (auditFields_never_enters Fixtures.production "myapp"));
    reflexivity.
Defined.

(** ** The validator *)

Section TranslatedErrors.

Variable trans : option string.

Let key (e : validator.FieldError) : string :=
  validator.stripStruct (validator.Namespace e).

Lemma translatedErrors_snoc (errs : list validator.FieldError) e :
  validator.translatedErrors trans (errs ++ [e])
  = <[key e := validator.message trans e]>
      (validator.translatedErrors trans errs).
Proof. unfold validator.translatedErrors. by rewrite foldl_app. Qed.

Lemma translatedErrors_lookup_None (errs : list validator.FieldError) k :
  validator.translatedErrors trans errs !! k = None
  ↔ Forall (λ e, key e ≠ k) errs.
Proof.
  induction errs as [|e errs IH] using rev_ind.
  - split; [constructor | reflexivity].
  - rewrite translatedErrors_snoc, lookup_insert_None, Forall_app, IH.
    rewrite Forall_singleton. tauto.
Qed.

Lemma translatedErrors_last (before : list validator.FieldError) e after :
  Forall (λ e', key e' ≠ key e) after →
  validator.translatedErrors trans (before ++ e :: after) !! key e
  = Some (validator.message trans e).
Proof.
  induction after as [|e' after IH] using rev_ind; intros Hafter.
  - rewrite translatedErrors_snoc. apply lookup_insert_eq.
  - rewrite Forall_app, Forall_singleton in Hafter.
    destruct Hafter as [Hafter He'].
    rewrite app_comm_cons, app_assoc, translatedErrors_snoc.
    rewrite lookup_insert_ne by done. by apply IH.
Qed.

Lemma translatedErrors_size (errs : list validator.FieldError) :
  (size (validator.translatedErrors trans errs) ≤ List.length errs)%nat.
Proof.
  induction errs as [|e errs IH] using rev_ind.
  { unfold validator.translatedErrors. simpl. by rewrite map_size_empty. }
  rewrite translatedErrors_snoc, length_app. simpl.
  destruct (validator.translatedErrors trans errs !! key e) eqn:E.
  - rewrite map_size_insert_Some by done. lia.
  - rewrite map_size_insert_None by done. lia.
Qed.

End TranslatedErrors.

(** X11: the error map of the rule path has exactly the stripped
    namespaces of the violations as keys; where several violations share a
    path the last one's message stays; so the map has at most as many
    entries as there are violations. *)
Theorem translatedErrors_keys (trans : option string)
    (errs : list validator.FieldError) :
  (∀ k, validator.translatedErrors trans errs !! k = None
        ↔ Forall (λ e, validator.stripStruct (validator.Namespace e) ≠ k) errs)
  ∧ (∀ before e after,
       errs = before ++ e :: after →
       Forall (λ e', validator.stripStruct (validator.Namespace e')
                     ≠ validator.stripStruct (validator.Namespace e)) after →
       validator.translatedErrors trans errs
         !! validator.stripStruct (validator.Namespace e)
       = Some (validator.message trans e))
  ∧ (size (validator.translatedErrors trans errs) ≤ List.length errs)%nat.
Proof.
  split; [| split].
  - intros k. apply translatedErrors_lookup_None.
  - intros before e after -> Hafter. by apply translatedErrors_last.
  - apply translatedErrors_size.
Qed.

Lemma translatedErrors_keys_witness :
  validator.translatedErrors None
    [validator.mkFieldError "UserConfig.Age" "gte" "18" (λ _, "");
     validator.mkFieldError "UserConfig.Age" "required" "" (λ _, "")]
    !! "Age"
  = Some "required".
Proof.
  apply (proj1 (proj2 (translatedErrors_keys None
           [validator.mkFieldError "UserConfig.Age" "gte" "18" (λ _, "");
            validator.mkFieldError "UserConfig.Age" "required" "" (λ _, "")]))
           [validator.mkFieldError "UserConfig.Age" "gte" "18" (λ _, "")]
           (validator.mkFieldError "UserConfig.Age" "required" "" (λ _, ""))
           []).
  - reflexivity.
  - constructor.
Defined.

(** X12: a namespace loses its first segment and nothing more: what is
    left is the path below the struct name, with its own dots; a namespace
    without a dot is kept whole. *)
Theorem stripStruct_first_segment :
  (∀ head rest,
     hasByte "." head = false →
     validator.stripStruct (head +:+ "." +:+ rest) = rest)
  ∧ (∀ namespace,
       hasByte "." namespace = false →
       validator.stripStruct namespace = namespace).
Proof.
  split.
  - intros head rest Hclean. unfold validator.stripStruct.
    change (head +:+ "." +:+ rest) with (head +:+ String "." rest).
    by rewrite Cut_first.
  - intros namespace Hclean. unfold validator.stripStruct.
    by rewrite Cut_absent.
Qed.

Lemma stripStruct_first_segment_witness :
  validator.stripStruct "UserConfig.settings.theme_mode" = "settings.theme_mode"
  ∧ validator.stripStruct "Age" = "Age".
Proof.
  split.
  - apply (proj1 stripStruct_first_segment "UserConfig" "settings.theme_mode").
    reflexivity.
  - apply (proj2 stripStruct_first_segment "Age"). reflexivity.
Defined.

(** X13: on an instance without the method, [Validate] calls the rule
    evaluator once, with the registered naming function, and never the
    instance; it returns [nil] exactly when the evaluator does, a plain
    error for an invalid subject (nil, not a struct), and the
    [*ValidationError] built from the violations otherwise. *)
Theorem Validate_rules_path (v : validator.Validator) (i : validator.Instance) :
  validator.validateMethod i = None →
  fst (validator.Validate v i) = [validator.StructRules (validator.dyn i)]
  ∧ (snd (validator.Validate v i) = None
     ↔ validator.Struct (validator.engine v) (validator.tagName v)
         (validator.dyn i) = None)
  ∧ (∀ msg,
       validator.Struct (validator.engine v) (validator.tagName v)
         (validator.dyn i) = Some (validator.InvalidValidationError msg) →
       snd (validator.Validate v i)
       = Some (validator.errorString ("invalid validation error: " +:+ msg)))
  ∧ (∀ errs,
       validator.Struct (validator.engine v) (validator.tagName v)
         (validator.dyn i) = Some (validator.ValidationErrors errs) →
       snd (validator.Validate v i)
       = Some (validator.ValidationError
                 (validator.translatedErrors (validator.trans v) errs))).
Proof.
  intros Hnone. unfold validator.Validate. rewrite Hnone.
  destruct (validator.Struct _ _ _) as [[msg|errs]|]; simpl.
  - repeat split; try done. by intros ? [= ->].
  - repeat split; try done. by intros ? [= ->].
  - repeat split; done.
Qed.

Lemma Validate_rules_path_witness :
  snd (validator.Validate
         (validator.mkValidator LoadFixtures.accepting validator.tagNameFunc None)
         (validator.mkInstance (validator.FastConfig "too_short") None))
  = None.
Proof.
  apply (proj1 (proj2 (Validate_rules_path
           (validator.mkValidator LoadFixtures.accepting
              validator.tagNameFunc None)
           (validator.mkInstance (validator.FastConfig "too_short") None)
           eq_refl))).
  reflexivity.
Defined.



Section ErrorText.

Variable sep : string.

Let glue (elems : list string) : string :=
  foldr (λ e acc, sep +:+ e +:+ acc) "" elems.

Lemma glue_app (l1 l2 : list string) : glue (l1 ++ l2) = glue l1 +:+ glue l2.
Proof.
  induction l1 as [|x l1 IH]; [reflexivity |].
  unfold glue in *. simpl. by rewrite IH, !app_assoc_string.
Qed.

(** Every element of a joined list stands in the joined text. *)
Lemma Join_holds (l1 : list string) (x : string) (l2 : list string) :
  ∃ pre post, validator.Join (l1 ++ x :: l2) sep = pre +:+ x +:+ post.
Proof.
  destruct l1 as [|y l1].
  - exists "", (glue l2). reflexivity.
  - exists (y +:+ glue l1 +:+ sep), (glue l2).
    change (validator.Join ((y :: l1) ++ x :: l2) sep)
      with (y +:+ glue (l1 ++ x :: l2)).
    rewrite glue_app. change (glue (x :: l2)) with (sep +:+ x +:+ glue l2).
    by rewrite !app_assoc_string.
Qed.

End ErrorText.

(** X15: the text of a [*ValidationError].  Whatever order the map is
    visited in, the text starts with the header and holds [field: message]
    for every entry of the map; for an empty map it is the header with a
    dangling list marker. *)
Theorem ValidationError_Error_text :
  (∀ Errors, ∃ text, validator.Error_returns Errors text)
  ∧ (∀ text,
       validator.Error_returns ∅ text
       ↔ text = "validation failed:" +:+ validator.newline +:+ " - ")
  ∧ (∀ Errors text,
       validator.Error_returns Errors text →
       ∃ body,
         text = "validation failed:" +:+ validator.newline +:+ " - " +:+ body)
  ∧ (∀ Errors text field msg,
       validator.Error_returns Errors text →
       Errors !! field = Some msg →
       ∃ pre post, text = pre +:+ field +:+ ": " +:+ msg +:+ post).
Proof.
  split; [| split; [| split]].
  - intros Errors. exists (validator.ErrorText (map_to_list Errors)).
    by exists (map_to_list Errors).
  - intros text. unfold validator.Error_returns. rewrite map_to_list_empty.
    split.
    + intros (entries & Hperm & ->). by apply Permutation_nil_r in Hperm as ->.
    + intros ->. by exists [].
  - intros Errors text (entries & _ & ->). eexists. reflexivity.
  - intros Errors text field msg (entries & Hperm & ->) Hlookup.
    assert ((field, msg) ∈ entries) as Hin.
    { rewrite Hperm. by apply elem_of_map_to_list. }
    apply list_elem_of_split in Hin as (l1 & l2 & ->).
    unfold validator.ErrorText. rewrite map_app. simpl.
    destruct (Join_holds (validator.newline +:+ " - ")
                (map (λ fm, fst fm +:+ ": " +:+ snd fm) l1)
                (field +:+ ": " +:+ msg)
                (map (λ fm, fst fm +:+ ": " +:+ snd fm) l2))
      as (pre & post & ->).
    exists ("validation failed:" +:+ validator.newline +:+ " - " +:+ pre), post.
    by rewrite !app_assoc_string.
Qed.

Lemma ValidationError_Error_text_witness :
  ∃ pre post,
    validator.ErrorText [("host", "is required"); ("port", "must be number")]
    = pre +:+ "host" +:+ ": " +:+ "is required" +:+ post.
Proof.
  apply (proj2 (proj2 (proj2 ValidationError_Error_text))
           {[ "host" := "is required"; "port" := "must be number" ]}).
  - exists [("host", "is required"); ("port", "must be number")].
    split; [| reflexivity].
    apply NoDup_Permutation.
    + apply NoDup_cons. split; [| apply NoDup_singleton].
      intros Hin. apply list_elem_of_singleton in Hin. discriminate Hin.
    + apply NoDup_map_to_list.
    + intros [k m]. rewrite elem_of_map_to_list.
      rewrite lookup_insert_Some, lookup_singleton_Some.
      rewrite !elem_of_cons, elem_of_nil. split.
      * intros [[= -> ->] | [[= -> ->] | []]];
          [by left | right; split; [discriminate | done]].
      * intros [[<- <-] | [_ [<- <-]]]; [by left | by right; left].
  - reflexivity.
Defined.

(** X16: the hand-written [Validate] of [UserInterface] accepts exactly
    the users the tags of [UserReflect] describe, a name and an age of at
    least 18, and reports a missing name before an age. *)
Theorem UserInterface_Validate_rule (v : validator.Validator)
    (name : string) (age : Z) :
  (snd (validator.Validate v
          (validator.mkInstance (validator.UserInterface name age)
             (Some validator.UserInterface_Validate))) = None
   ↔ name ≠ "" ∧ (18 ≤ age)%Z)
  ∧ (name = "" →
     snd (validator.Validate v
            (validator.mkInstance (validator.UserInterface name age)
               (Some validator.UserInterface_Validate)))
     = Some (validator.errorString "name is required"))
  ∧ (name ≠ "" → (age < 18)%Z →
     snd (validator.Validate v
            (validator.mkInstance (validator.UserInterface name age)
               (Some validator.UserInterface_Validate)))
     = Some (validator.errorString "age must be >= 18")).
Proof.
  unfold validator.Validate. simpl.
  destruct name as [|c name]; simpl.
  - split; [| split]; [| done | done]. split; [discriminate | by intros [? _]].
  - destruct (Z.ltb_spec age 18) as [Hlt|Hge].
    + split; [| split]; [| discriminate | done].
      split; [discriminate | intros [_ ?]; lia].
    + split; [| split]; [| discriminate | intros _ ?; lia]. done.
Qed.

Lemma UserInterface_Validate_rule_witness :
  snd (validator.Validate
         (validator.mkValidator validator.rejecting validator.tagNameFunc None)
         (validator.mkInstance (validator.UserInterface "" 10)
            (Some validator.UserInterface_Validate)))
  = Some (validator.errorString "name is required")
  ∧ snd (validator.Validate
           (validator.mkValidator validator.rejecting validator.tagNameFunc None)
           (validator.mkInstance (validator.UserInterface "Admin" 20)
              (Some validator.UserInterface_Validate)))
    = None.
Proof.
  split.
  - apply (proj1 (proj2 (UserInterface_Validate_rule
             (validator.mkValidator validator.rejecting
                validator.tagNameFunc None) "" 10))).
    reflexivity.
  - apply (proj1 (UserInterface_Validate_rule
             (validator.mkValidator validator.rejecting
                validator.tagNameFunc None) "Admin" 20)).
    split; [discriminate | lia].
Defined.

(** ** Options *)

Section OptionFacts.

Context {A : Type} (component : options → A).

Lemma foldl_keeps (others : list Option) (o : options) :
  Forall (keeps component) others →
  component (foldl (λ o opt, opt o) o others) = component o.
Proof.
  intros Hkeep. revert o.
  induction Hkeep as [|opt others Hopt _ IH]; intros o; [reflexivity |].
  simpl. by rewrite IH, Hopt.
Qed.

Lemma applyOptions_last (opts : list Option) (set : Option)
    (others : list Option) :
  Forall (keeps component) others →
  component (applyOptions (opts ++ set :: others))
  = component (set (applyOptions opts)).
Proof.
  intros Hkeep. unfold applyOptions. rewrite foldl_app. simpl.
  by apply foldl_keeps.
Qed.

End OptionFacts.

(** X17: options are applied in the order they are given, on top of the
    defaults.  A component no option touches keeps its default; otherwise
    the last option that sets it decides; and each of the four options sets
    its own component and keeps the other three. *)
Theorem options_last_wins :
  (∀ opts,
     (Forall (keeps locale) opts → locale (applyOptions opts) = "zh")
     ∧ (Forall (keeps fileType) opts → fileType (applyOptions opts) = "yaml")
     ∧ (Forall (keeps fileName) opts → fileName (applyOptions opts) = "config")
     ∧ (Forall (keeps searchPaths) opts →
        searchPaths (applyOptions opts) = ["."; "./config"]))
  ∧ (∀ opts others,
       (∀ l, Forall (keeps locale) others →
             locale (applyOptions (opts ++ WithLocale l :: others)) = l)
       ∧ (∀ t, Forall (keeps fileType) others →
               fileType (applyOptions (opts ++ WithFileType t :: others)) = t)
       ∧ (∀ n, Forall (keeps fileName) others →
               fileName (applyOptions (opts ++ WithFileName n :: others)) = n)
       ∧ (∀ paths, Forall (keeps searchPaths) others →
               searchPaths (applyOptions (opts ++ WithSearchPaths paths :: others))
               = paths))
  ∧ (∀ l t n paths,
       Forall (keeps locale)
         [WithFileType t; WithFileName n; WithSearchPaths paths]
       ∧ Forall (keeps fileType)
           [WithLocale l; WithFileName n; WithSearchPaths paths]
       ∧ Forall (keeps fileName)
           [WithLocale l; WithFileType t; WithSearchPaths paths]
       ∧ Forall (keeps searchPaths)
           [WithLocale l; WithFileType t; WithFileName n]).
Proof.
  split; [| split].
  - intros opts. unfold applyOptions.
    repeat split; intros Hkeep; by rewrite foldl_keeps.
  - intros opts others.
    repeat split; intros x Hkeep; by rewrite applyOptions_last.
  - intros l t n paths. repeat split; repeat constructor.
Qed.

Lemma options_last_wins_witness :
  locale (applyOptions [WithLocale "en"; WithFileType "json"; WithLocale "";
                        WithSearchPaths []; WithFileName "settings"])
  = "".
Proof.
  apply (proj1 (proj1 (proj2 options_last_wins)
                  [WithLocale "en"; WithFileType "json"]
                  [WithSearchPaths []; WithFileName "settings"]) "").
  repeat constructor.
Defined.

(** ** Loading *)

(** X18: [Load] returns a configuration exactly when every step went
    through: the file was read or was not there, the decoding gave that
    configuration, the strict-environment audit of it passed, the validator
    could be built for the locale of the options, and it found no fault.  So
    a configuration that [Load] returns has passed the audit and the
    validation. *)
Theorem Load_success_iff (lib : Libraries) (T : ConfigType)
    (env : gmap string string) (appName : string) (opts : list Option)
    (cfg : Value) :
  Load lib T env appName opts = inl cfg
  ↔ (∀ cause, ReadInConfig lib (applyOptions opts) ≠ Some (OtherReadError cause))
    ∧ Unmarshal lib (applyOptions opts) appName env (SetDefaults lib (zero T))
      = inl cfg
    ∧ checkEnvStrict env appName (Some (VPtr cfg)) = None
    ∧ ∃ val,
        validator.New (rules lib) [locale (applyOptions opts)] = inl val
        ∧ snd (validator.Validate val
                 (validator.mkInstance (VPtr cfg) (method T))) = None.
Proof.
  unfold Load. split.
  - intros Hload.
    assert (∀ cause, ReadInConfig lib (applyOptions opts)
                     ≠ Some (OtherReadError cause)) as Hread.
    { intros cause E. rewrite E in Hload. discriminate. }
    split; [exact Hread |].
    assert (match Unmarshal lib (applyOptions opts) appName env
                    (SetDefaults lib (zero T)) with
            | inr cause => inr (UnmarshalConfig cause)
            | inl cfg0 =>
                match checkEnvStrict env appName (Some (VPtr cfg0)) with
                | Some msg => inr (StrictEnv msg)
                | None =>
                    match validator.New (rules lib)
                            [locale (applyOptions opts)] with
                    | inr cause => inr (InitValidator cause)
                    | inl val =>
                        match snd (validator.Validate val
                                     (validator.mkInstance (VPtr cfg0)
                                        (method T))) with
                        | Some err => inr (Invalid err)
                        | None => inl cfg0
                        end
                    end
                end
            end = inl cfg) as Hrest.
    { destruct (ReadInConfig lib (applyOptions opts)) as [[|cause]|];
        [exact Hload | discriminate | exact Hload]. }
    clear Hload.
    destruct (Unmarshal _ _ _ _ _) as [cfg0|cause]; [| discriminate].
    destruct (checkEnvStrict env appName (Some (VPtr cfg0))) eqn:Haudit;
      [discriminate |].
    destruct (validator.New _ _) as [val|cause] eqn:Hnew; [| discriminate].
    destruct (snd (validator.Validate val _)) eqn:Hvalid; [discriminate |].
    injection Hrest as <-. rewrite Haudit. eauto.
  - intros (Hread & Hdecode & Haudit & val & Hnew & Hvalid).
    rewrite Hdecode, Haudit, Hnew, Hvalid.
    destruct (ReadInConfig lib (applyOptions opts)) as [[|cause]|];
      [reflexivity | by destruct (Hread cause) | reflexivity].
Qed.

Lemma Load_success_iff_witness :
  Load LoadFixtures.noFile LoadFixtures.StrictConfigType
    (<["MYAPP_PASSWORD" := "secret123"]> Fixtures.production) "myapp" []
  = inl (Fixtures.StrictConfig "" (VNil Fixtures.StrictSubType)).
Proof.
  apply Load_success_iff. split; [discriminate |].
  split; [reflexivity |]. split; [reflexivity |].
  eexists. split; reflexivity.
Defined.



(** X20: a configuration file that is not there is no error: [Load] goes
    on as after a successful read, so a process configured by its
    environment alone loads. *)
Theorem Load_tolerates_missing_file (lib : Libraries) (T : ConfigType)
    (env : gmap string string) (appName : string) (opts : list Option) :
  ReadInConfig lib (applyOptions opts) = Some ConfigFileNotFoundError →
  Load lib T env appName opts
  = Load (mkLibraries (SetDefaults lib) (λ _, None) (Unmarshal lib) (rules lib))
      T env appName opts
  ∧ ∀ cause, Load lib T env appName opts ≠ inr (ReadConfigFile cause).
Proof.
  intros Hmissing. unfold Load. rewrite Hmissing.
  cbn [SetDefaults ReadInConfig Unmarshal rules].
  split; [reflexivity |]. intros cause.
  destruct (Unmarshal _ _ _ _ _) as [cfg|c]; [| discriminate].
  destruct (checkEnvStrict _ _ _); [discriminate |].
  destruct (validator.New _ _); [| discriminate].
  destruct (snd (validator.Validate _ _)); discriminate.
Qed.

Lemma Load_tolerates_missing_file_witness :
  Load LoadFixtures.noFile LoadFixtures.StrictConfigType ∅ "myapp" []
  = Load (mkLibraries (λ v, v) (λ _, None) (λ _ _ _ v, inl v)
            LoadFixtures.accepting)
      LoadFixtures.StrictConfigType ∅ "myapp" [].
Proof.
  apply (Load_tolerates_missing_file LoadFixtures.noFile
           LoadFixtures.StrictConfigType ∅ "myapp" []).
  reflexivity.
Defined.
